(** * In-Surely: the query-resolution pipeline of [In_Surely.ipynb]

    A shallow embedding of the two functions of the notebook that carry the
    pipeline, [retrieve_documents] (semantic cache in front of the vector
    store) and [rerank_results] (cross-encoder reranking), together with
    the library calls they make.

    The notebook drives three libraries.  Each is modelled at the level its
    documentation describes, and everything the notebook treats as a black
    box is a parameter:

    - chromadb: a collection is the sequence of its records in insertion
      order.  [Collection.query] validates [n_results], embeds the query
      text and returns the nearest records in ascending distance (the
      index is taken to be exact);
      [Collection.add] skips an id that is already present (the behaviour of
      the chromadb releases that provide [PersistentClient]; overwriting is
      the separate call [upsert], which the notebook never makes).
    - [str] / [ast.literal_eval]: a printer and a parser per payload type
      ([Literal]), left abstract; where a property needs the lists of a
      result to survive the two, it says so ([payload_round_trips]).
    - pandas: a frame is the list of its rows, each with its index label;
      [sort_values] permutes the rows by the indexer that the sorting
      routine returns for the key column.  The routine ([nargsort]) is a
      parameter: the notebook does not pass [kind=], so pandas' default
      ['quicksort'] applies, for which pandas promises an ordering but no
      stability (only ['mergesort'] and ['stable'] are stable).  That
      default routine, numpy's scalar quicksort run by pandas on the
      reversed column, is also written out ([nargsort_quicksort]).

    Python floats are modelled by rationals: only their order is used.
    A raised exception is a value of [exn]; the globals of the notebook and
    what it prints are threaded through the [Cell] monad.  A frame that a
    function builds is returned as a value; the frame that
    [rerank_results] is given, and changes in place, is reached through
    its reference in [frames].

    A small concrete environment ([Demo]) instantiates the parameters; the
    properties are run on it at the end. *)

From Stdlib Require Import QArith Lqa DecimalString.
From stdpp Require Import base list strings option sorting.

Local Open Scope nat_scope.

(** ** Exceptions *)

Inductive exn :=
| EmbeddingError   (* the embedding function raised *)
| NResultsError    (* chromadb rejected n_results <= 0 *)
| LiteralError     (* ast.literal_eval raised *)
| FrameError       (* pandas raised: unequal columns, missing column *)
| LookupError      (* a subscript out of range, a frame that is not there *)
| ScoringError.    (* the cross-encoder raised *)

(** [str(x)] and [ast.literal_eval(s)] at the type of [x]; [None] is a
    raised exception. *)
Class Literal (A : Type) := {
  py_str : A → string;
  literal_eval : string → option A }.

(** The two make a round trip on [x]. *)
Definition round_trips {A} `{Literal A} (x : A) : Prop :=
  literal_eval (py_str x) = Some x.

(** ** chromadb collections *)

(** One record of a collection: its id, the embedding computed when it was
    added, the document text and the metadata. *)
Record Entry (vec M : Type) := mkEntry {
  id : string;
  embedding : vec;
  document : string;
  metadata : M }.
Arguments mkEntry {vec M} _ _ _ _.
Arguments id {vec M} _.
Arguments embedding {vec M} _.
Arguments document {vec M} _.
Arguments metadata {vec M} _.

Definition Collection (vec M : Type) := list (Entry vec M).

(** What [Collection.query] returns for its single query text:
    [results['ids'][0]], [results['documents'][0]] and so on. *)
Record QueryResult (M : Type) := mkQueryResult {
  ids : list string;
  documents : list string;
  metadatas : list M;
  distances : list Q }.
Arguments mkQueryResult {M} _ _ _ _.
Arguments ids {M} _.
Arguments documents {M} _.
Arguments metadatas {M} _.
Arguments distances {M} _.

(** The metadata of a cache record: the dict with the three keys written by
    [retrieve_documents], each value a string. *)
Record CacheData := mkCacheData {
  cached_documents : string;   (* cache_data['documents'] *)
  cached_distances : string;   (* cache_data['distances'] *)
  cached_metadatas : string }. (* cache_data['metadatas'] *)

(** ** pandas frames *)

(** A row of the frames built by the notebook.  [Reranked_Scores] is absent
    until [rerank_results] adds that column. *)
Record Row (meta : Type) := mkRow {
  label : nat;                     (* the index label of the row *)
  Documents : string;
  Metadata : meta;
  Distances : Q;
  Reranked_Scores : option Q }.
Arguments mkRow {meta} _ _ _ _ _.
Arguments label {meta} _.
Arguments Documents {meta} _.
Arguments Metadata {meta} _.
Arguments Distances {meta} _.
Arguments Reranked_Scores {meta} _.

Definition DataFrame (meta : Type) := list (Row meta).

(** The candidate a row stands for, without the score column. *)
Definition candidate {meta} (r : Row meta) : nat * string * meta * Q :=
  (label r, Documents r, Metadata r, Distances r).

(** ** What the notebook prints *)

Inductive line (meta : Type) :=
| Cache_hit_for_query (query : string)
| Cache_retrieved_data (cache_data : CacheData)
| Cache_miss_Retrieving_from_main_collection
| Query_added_to_cache
| Retrieved_data_from_collection (results : QueryResult meta)
| Reranking_complete_Top_scores
| Top_scores (scores : list Q).
Arguments Cache_hit_for_query {meta} _.
Arguments Cache_retrieved_data {meta} _.
Arguments Cache_miss_Retrieving_from_main_collection {meta}.
Arguments Query_added_to_cache {meta}.
Arguments Retrieved_data_from_collection {meta} _.
Arguments Reranking_complete_Top_scores {meta}.
Arguments Top_scores {meta} _.

(** ** The globals of the notebook *)

Record World (vec meta : Type) := mkWorld {
  collection : Collection vec meta;             (* 'Insurance' *)
  cache_collection : Collection vec CacheData;  (* 'Insurance_Cache' *)
  frames : list (DataFrame meta);               (* the frames, by reference *)
  stdout : list (line meta) }.
Arguments mkWorld {vec meta} _ _ _ _.
Arguments collection {vec meta} _.
Arguments cache_collection {vec meta} _.
Arguments frames {vec meta} _.
Arguments stdout {vec meta} _.

(** ** Running a cell: state and exceptions *)

Definition Cell (W A : Type) : Type := W → (exn + A) * W.

Definition cell_ret {W A} (a : A) : Cell W A := λ w, (inr a, w).
Definition cell_bind {W A B} (m : Cell W A) (k : A → Cell W B) : Cell W B :=
  λ w, match m w with
       | (inl e, w') => (inl e, w')
       | (inr a, w') => k a w'
       end.
Definition raise {W A} (e : exn) : Cell W A := λ w, (inl e, w).

(** A library call that returns or raises without touching the globals. *)
Definition call {W A} (r : exn + A) : Cell W A := λ w, (r, w).

Notation "x <~ m ;; k" := (cell_bind m (λ x, k))
  (at level 100, m at next level, right associativity, only parsing).
Notation "m ;;; k" := (cell_bind m (λ _, k))
  (at level 100, right associativity, only parsing).

Section Model.

(** The embedding model (text to vector, may raise), the distance of the
    collections' vector index, the metadata attached to a page, the
    cross-encoder (query and text to score, may raise) and the sorting
    routine behind [sort_values(ascending=False)], which maps the key
    column to the positions of the rows in their new order. *)
Variable vec : Type.
Variable embedding_function : string → option vec.
Variable distance : vec → vec → Q.
Variable meta : Type.
Context `{Ldocs : Literal (list string)}.
Context `{Ldists : Literal (list Q)}.
Context `{Lmetas : Literal (list meta)}.
Variable cross_encoder : string → string → option Q.
Variable nargsort : list Q → list nat.

Abbreviation W := (World vec meta).

(** *** chromadb *)

(** Insertion by ascending distance; among equal distances the record
    inserted first stays first. *)
Fixpoint insert_nearer {A} (x : Q * A) (l : list (Q * A)) : list (Q * A) :=
  match l with
  | [] => [x]
  | y :: l' => if Qle_bool (fst x) (fst y) then x :: l
               else y :: insert_nearer x l'
  end.

Definition by_distance {A} (l : list (Q * A)) : list (Q * A) :=
  foldr insert_nearer [] l.

(** [x] is at most as far as [y]. *)
Definition nearer {A} (x y : Q * A) : Prop := (fst x <= fst y)%Q.

(** The records of [c] with their distance to [v], nearest first. *)
Definition neighbours {M} (v : vec) (c : Collection vec M)
  : list (Q * Entry vec M) :=
  by_distance (map (λ e, (distance v (embedding e), e)) c).

(** [c.query(query_texts=[query_text], n_results=n_results)] *)
Definition query {M} (c : Collection vec M) (query_text : string)
    (n_results : Z) : exn + QueryResult M :=
  if (n_results <=? 0)%Z then inl NResultsError
  else match embedding_function query_text with
       | None => inl EmbeddingError
       | Some v =>
           let hits := take (Z.to_nat n_results) (neighbours v c) in
           inr {| ids := map (λ h, id (snd h)) hits;
                  documents := map (λ h, document (snd h)) hits;
                  metadatas := map (λ h, metadata (snd h)) hits;
                  distances := map fst hits |}
       end.

(** [c.add(documents=[text], ids=[key], metadatas=[m])]: a record whose id
    is already in the collection is skipped. *)
Definition add {M} (c : Collection vec M) (text key : string) (m : M)
  : exn + Collection vec M :=
  match embedding_function text with
  | None => inl EmbeddingError
  | Some v =>
      inr (if bool_decide (key ∈ map id c) then c
           else c ++ [mkEntry key v text m])
  end.

(** *** The calls on the globals *)

Definition print (l : line meta) : Cell W unit :=
  λ w, (inr tt, mkWorld (collection w) (cache_collection w) (frames w)
                        (stdout w ++ [l])).

Definition cache_collection_query (query_text : string) (n_results : Z)
  : Cell W (QueryResult CacheData) :=
  λ w, (query (cache_collection w) query_text n_results, w).

Definition collection_query (query_text : string) (n_results : Z)
  : Cell W (QueryResult meta) :=
  λ w, (query (collection w) query_text n_results, w).

Definition cache_collection_add (text key : string) (m : CacheData)
  : Cell W unit :=
  λ w, match add (cache_collection w) text key m with
       | inl e => (inl e, w)
       | inr c => (inr tt, mkWorld (collection w) c (frames w) (stdout w))
       end.

Definition ast_literal_eval {A} `{Literal A} (s : string) : Cell W A :=
  call (match literal_eval s with
        | Some x => inr x
        | None => inl LiteralError
        end).

(** *** pandas *)

(** The rows of [pd.DataFrame({"Documents": .., "Metadata": ..,
    "Distances": ..})], labelled from [i] on; the three columns must have
    the same length. *)
Fixpoint frame_rows (i : nat) (docs : list string) (metas : list meta)
    (dists : list Q) : option (DataFrame meta) :=
  match docs, metas, dists with
  | [], [], [] => Some []
  | d :: docs', m :: metas', x :: dists' =>
      match frame_rows (S i) docs' metas' dists' with
      | Some rows => Some (mkRow i d m x None :: rows)
      | None => None
      end
  | _, _, _ => None
  end.

Definition pd_DataFrame (docs : list string) (metas : list meta)
    (dists : list Q) : Cell W (DataFrame meta) :=
  call (match frame_rows 0 docs metas dists with
        | Some rows => inr rows
        | None => inl FrameError
        end).

(** The rows with the column [Reranked_Scores] set to [scores]; the column
    must be as long as the frame. *)
Fixpoint set_scores (rows : DataFrame meta) (scores : list Q)
  : option (DataFrame meta) :=
  match rows, scores with
  | [], [] => Some []
  | r :: rows', s :: scores' =>
      match set_scores rows' scores' with
      | Some rows'' =>
          Some (mkRow (label r) (Documents r) (Metadata r) (Distances r)
                      (Some s) :: rows'')
      | None => None
      end
  | _, _ => None
  end.

(** [df['Reranked_Scores'] = scores], on the frame itself. *)
Definition setitem_Reranked_Scores (df : nat) (scores : list Q)
  : Cell W unit :=
  λ w, match frames w !! df with
       | None => (inl LookupError, w)
       | Some rows =>
           match set_scores rows scores with
           | None => (inl FrameError, w)
           | Some rows' =>
               (inr tt, mkWorld (collection w) (cache_collection w)
                                (<[df := rows']> (frames w)) (stdout w))
           end
       end.

(** [df['Documents']] *)
Definition getitem_Documents (df : nat) : Cell W (list string) :=
  λ w, match frames w !! df with
       | None => (inl LookupError, w)
       | Some rows => (inr (map Documents rows), w)
       end.

(** [df.sort_values(by='Reranked_Scores', ascending=False)]: a new frame
    whose rows are those of [df] taken in the order of the indexer. *)
Definition sort_values_by_Reranked_Scores (df : nat) : Cell W nat :=
  λ w, match frames w !! df with
       | None => (inl LookupError, w)
       | Some rows =>
           match mapM Reranked_Scores rows with
           | None => (inl FrameError, w)
           | Some key =>
               match mapM (λ i, rows !! i) (nargsort key) with
               | None => (inl LookupError, w)
               | Some sorted =>
                   (inr (length (frames w)),
                    mkWorld (collection w) (cache_collection w)
                            (frames w ++ [sorted]) (stdout w))
               end
           end
       end.

(** [cross_encoder.predict(inputs)]: one score per pair, or the
    exception of the first pair on which the model raises. *)
Definition cross_encoder_predict (inputs : list (string * string))
  : Cell W (list Q) :=
  call (match mapM (λ p, cross_encoder (fst p) (snd p)) inputs with
        | Some scores => inr scores
        | None => inl ScoringError
        end).

(** *** The notebook's functions *)

(** [distances[0] and distances[0][0] <= cache_threshold]: the test of the
    [if] in [retrieve_documents]. *)
Definition within_threshold (cache_results : QueryResult CacheData)
    (cache_threshold : Q) : bool :=
  match distances cache_results with
  | [] => false
  | d :: _ => Qle_bool d cache_threshold
  end.

Definition retrieve_documents (query_text : string) (n_results : Z)
    (cache_threshold : Q) : Cell W (DataFrame meta) :=
  cache_results <~ cache_collection_query query_text 1 ;;
  if within_threshold cache_results cache_threshold then
    print (Cache_hit_for_query query_text) ;;;
    cache_data <~ call (match metadatas cache_results with
                        | [] => inl LookupError
                        | m :: _ => inr m
                        end) ;;
    print (Cache_retrieved_data cache_data) ;;;
    docs <~ ast_literal_eval (cached_documents cache_data) ;;
    dists <~ ast_literal_eval (cached_distances cache_data) ;;
    metas <~ ast_literal_eval (cached_metadatas cache_data) ;;
    pd_DataFrame docs metas dists
  else
    print Cache_miss_Retrieving_from_main_collection ;;;
    results <~ collection_query query_text n_results ;;
    cache_collection_add query_text query_text
      {| cached_documents := py_str (documents results);
         cached_distances := py_str (distances results);
         cached_metadatas := py_str (metadatas results) |} ;;;
    print Query_added_to_cache ;;;
    print (Retrieved_data_from_collection results) ;;;
    pd_DataFrame (documents results) (metadatas results)
                 (distances results).

Definition rerank_results (query_text : string) (results_df : nat)
  : Cell W nat :=
  docs <~ getitem_Documents results_df ;;
  scores <~ cross_encoder_predict (map (λ doc, (query_text, doc)) docs) ;;
  setitem_Reranked_Scores results_df scores ;;;
  print Reranking_complete_Top_scores ;;;
  print (Top_scores (take 3 scores)) ;;;
  sort_values_by_Reranked_Scores results_df.

(** The defaults of [retrieve_documents]: [n_results=5] and
    [cache_threshold=0.2]. *)
Definition default_n_results : Z := 5.
Definition default_cache_threshold : Q := 0.2.

(** *** What a call shows of the path it took *)

(** The first line a call of [retrieve_documents] prints tells its path. *)
Definition hit_path (query_text : string) (w w' : W) : Prop :=
  ∃ rest, stdout w' = stdout w ++ Cache_hit_for_query query_text :: rest.

Definition miss_path (w w' : W) : Prop :=
  ∃ rest,
    stdout w' = stdout w ++ Cache_miss_Retrieving_from_main_collection :: rest.

(** Every record of a cache written by [retrieve_documents] carries the
    embedding of its id: the query text is both the id and the document. *)
Definition cache_wf (c : Collection vec CacheData) : Prop :=
  ∀ e, e ∈ c → embedding_function (id e) = Some (embedding e).

(** The record that a miss on [query_text] writes for [results]. *)
Definition cache_entry (query_text : string) (v : vec)
    (results : QueryResult meta) : Entry vec CacheData :=
  mkEntry query_text v query_text
    {| cached_documents := py_str (documents results);
       cached_distances := py_str (distances results);
       cached_metadatas := py_str (metadatas results) |}.

(** The frame that the hit path builds from the metadata of a cache
    record, or the exception it raises on the way. *)
Definition cached_frame (cache_data : CacheData) : exn + DataFrame meta :=
  match literal_eval (cached_documents cache_data) with
  | None => inl LiteralError
  | Some docs =>
      match literal_eval (cached_distances cache_data) with
      | None => inl LiteralError
      | Some dists =>
          match literal_eval (cached_metadatas cache_data) with
          | None => inl LiteralError
          | Some metas =>
              match frame_rows 0 docs metas dists with
              | Some rows => inr rows
              | None => inl FrameError
              end
          end
      end
  end.

(** The world after a call that only printed [lines]. *)
Definition printed (w : W) (lines : list (line meta)) : W :=
  mkWorld (collection w) (cache_collection w) (frames w) (stdout w ++ lines).

(** The three lists of [results] survive [str] then [ast.literal_eval]. *)
Definition payload_round_trips (results : QueryResult meta) : Prop :=
  round_trips (documents results) ∧ round_trips (distances results)
  ∧ round_trips (metadatas results).

End Model.

Arguments query {vec} _ _ {M} _ _ _.
Arguments add {vec} _ {M} _ _ _ _.
Arguments neighbours {vec} _ {M} _ _.
Arguments frame_rows {meta} _ _ _ _.
Arguments set_scores {meta} _ _.
Arguments hit_path {vec meta} _ _ _.
Arguments miss_path {vec meta} _ _.
Arguments printed {vec meta} _ _.
Arguments cache_entry {vec meta Ldocs Ldists Lmetas} _ _ _.
Arguments payload_round_trips {meta Ldocs Ldists Lmetas} _.
Arguments cached_frame {meta Ldocs Ldists Lmetas} _.
Arguments cache_wf {vec} _ _.

(** ** What pandas promises of the sorting routine *)

(** The score at position [a] of the key column is at least the one at [b]. *)
Definition key_ge (key : list Q) (a b : nat) : Prop :=
  ∀ x y, key !! a = Some x → key !! b = Some y → (y <= x)%Q.

(** Positions with equal scores are in increasing order. *)
Definition ties_in_order (key : list Q) (a b : nat) : Prop :=
  ∀ x y, key !! a = Some x → key !! b = Some y → (x == y)%Q → a < b.

(** For every key column the indexer is a permutation of the positions and
    lists them by descending score: what [sort_values(ascending=False)]
    promises whatever [kind] is. *)
Record sorts_descending (nargsort : list Q → list nat) : Prop := {
  indexer_permutes : ∀ key, nargsort key ≡ₚ seq 0 (length key);
  indexer_descends : ∀ key, StronglySorted (key_ge key) (nargsort key) }.

(** Rows of equal score keep their order: promised only for
    [kind='stable'] and [kind='mergesort']. *)
Definition stable_sort (nargsort : list Q → list nat) : Prop :=
  ∀ key, StronglySorted (ties_in_order key) (nargsort key).

(** A stable sorting routine, by insertion, descending.  [before y x]
    tells whether a position of score [y] stays ahead of the position of
    score [x] being inserted, which comes earlier in the column. *)
Fixpoint insert_index (before : Q → Q → bool) (key : list Q) (i : nat)
    (l : list nat) : list nat :=
  match l with
  | [] => [i]
  | j :: l' =>
      if before (nth j key 0%Q) (nth i key 0%Q)
      then j :: insert_index before key i l'
      else i :: l
  end.

Definition argsort_with (before : Q → Q → bool) (key : list Q) : list nat :=
  foldr (insert_index before key) [] (seq 0 (length key)).

(** Ties keep the order of the column. *)
Definition nargsort_stable : list Q → list nat :=
  argsort_with (λ y x, negb (Qle_bool y x)).

(** ** The sorting routine that [sort_values] runs by default

    Without [kind=], [sort_values] sorts with ['quicksort'].  For a
    descending sort pandas' [nargsort] reverses the column, calls numpy's
    [argsort] on it and reverses the indexer it gets.  numpy's scalar
    quicksort on an array of positions, [aquicksort], partitions a segment
    around the median of three while the segment has more than 17
    entries, sorts the segments of at most 17 entries by insertion, and
    turns to [aheapsort] for a segment taken from its stack once the depth
    limit is used up.  The vectorised routines that some numpy builds
    dispatch to on some processors are not modelled. *)

(** [v[i]] and [tosort[p]] *)
Definition value (v : list Q) (i : nat) : Q := nth i v 0%Q.
Definition item (tosort : list nat) (p : nat) : nat := nth p tosort 0.

(** [a < b] on floats that are not NaN. *)
Definition less (a b : Q) : bool := negb (Qle_bool b a).

(** [INTP_SWAP(tosort[a], tosort[b])] *)
Definition INTP_SWAP (tosort : list nat) (a b : nat) : list nat :=
  <[b := item tosort a]> (<[a := item tosort b]> tosort).

Definition SMALL_QUICKSORT : nat := 16.

(** [npy_get_msb(num) * 2] *)
Definition depth_limit (num : nat) : Z := (Z.log2 (Z.of_nat num) * 2)%Z.

(** The three conditional swaps that leave the median at [pm]. *)
Definition median_of_three (v : list Q) (tosort : list nat) (pl pm pr : nat)
  : list nat :=
  let t1 := if less (value v (item tosort pm)) (value v (item tosort pl))
            then INTP_SWAP tosort pm pl else tosort in
  let t2 := if less (value v (item t1 pr)) (value v (item t1 pm))
            then INTP_SWAP t1 pr pm else t1 in
  if less (value v (item t2 pm)) (value v (item t2 pl))
  then INTP_SWAP t2 pm pl else t2.

(** [do ++pi; while (v[*pi] < vp)]: the position it stops at.  The pivot
    at [pr - 1] stops it. *)
Fixpoint scan_up (fuel : nat) (v : list Q) (vp : Q) (tosort : list nat)
    (pi : nat) : nat :=
  match fuel with
  | 0 => S pi
  | S fuel' =>
      if less (value v (item tosort (S pi))) vp
      then scan_up fuel' v vp tosort (S pi)
      else S pi
  end.

(** [do --pj; while (vp < v[*pj])]: the entry at [pl] stops it. *)
Fixpoint scan_down (fuel : nat) (v : list Q) (vp : Q) (tosort : list nat)
    (pj : nat) : nat :=
  match fuel with
  | 0 => pred pj
  | S fuel' =>
      if less vp (value v (item tosort (pred pj)))
      then scan_down fuel' v vp tosort (pred pj)
      else pred pj
  end.

(** The [for (;;)] loop of the partition: the array and [pi] at the
    [break]. *)
Fixpoint partition_loop (fuel : nat) (v : list Q) (vp : Q)
    (tosort : list nat) (pi pj : nat) : list nat * nat :=
  match fuel with
  | 0 => (tosort, pi)
  | S fuel' =>
      let pi' := scan_up (length tosort) v vp tosort pi in
      let pj' := scan_down (length tosort) v vp tosort pj in
      if pj' <=? pi' then (tosort, pi')
      else partition_loop fuel' v vp (INTP_SWAP tosort pi' pj') pi' pj'
  end.

(** One partition of the segment from [pl] to [pr]: the array, and the
    position where the pivot ends. *)
Definition quicksort_partition (v : list Q) (tosort : list nat) (pl pr : nat)
  : list nat * nat :=
  let pm := pl + Nat.div2 (pr - pl) in
  let t := median_of_three v tosort pl pm pr in
  let vp := value v (item t pm) in
  let t' := INTP_SWAP t pm (pr - 1) in
  let '(t'', pi) := partition_loop (length tosort) v vp t' pl (pr - 1) in
  (INTP_SWAP t'' pi (pr - 1), pi).

(** [while (pj > pl && vp < v[*pk]) { *pj-- = *pk--; }] *)
Fixpoint shift_up (fuel : nat) (v : list Q) (vp : Q) (tosort : list nat)
    (pl pj : nat) : list nat * nat :=
  match fuel with
  | 0 => (tosort, pj)
  | S fuel' =>
      if (pl <? pj) && less vp (value v (item tosort (pj - 1)))
      then shift_up fuel' v vp (<[pj := item tosort (pj - 1)]> tosort)
                    pl (pj - 1)
      else (tosort, pj)
  end.

(** The insertion sort of the segment from [pl] to [pr]. *)
Definition insertion_sort (v : list Q) (tosort : list nat) (pl pr : nat)
  : list nat :=
  foldl (λ t pi,
           let vi := item t pi in
           let '(t', pj) := shift_up pi v (value v vi) t pl pi in
           <[pj := vi]> t')
        tosort (seq (S pl) (pr - pl)).

(** [a[k]] in [aheapsort], where [a = tosort - 1] and [tosort] points at
    [pl]. *)
Definition heap_get (tosort : list nat) (pl k : nat) : nat :=
  item tosort (pl + k - 1).
Definition heap_set (tosort : list nat) (pl k x : nat) : list nat :=
  <[pl + k - 1 := x]> tosort.

(** The inner loop of [aheapsort], from [i] and [j] on, with the
    [a[i] = tmp] that follows it. *)
Fixpoint sift (fuel : nat) (v : list Q) (tosort : list nat) (pl n tmp : nat)
    (i j : nat) : list nat :=
  match fuel with
  | 0 => heap_set tosort pl i tmp
  | S fuel' =>
      if j <=? n then
        let j' := if (j <? n)
                     && less (value v (heap_get tosort pl j))
                             (value v (heap_get tosort pl (j + 1)))
                  then j + 1 else j in
        if less (value v tmp) (value v (heap_get tosort pl j'))
        then sift fuel' v (heap_set tosort pl i (heap_get tosort pl j'))
                  pl n tmp j' (j' + j')
        else heap_set tosort pl i tmp
      else heap_set tosort pl i tmp
  end.

(** [aheapsort] on the [n] entries from [pl] on. *)
Definition aheapsort (v : list Q) (tosort : list nat) (pl n : nat)
  : list nat :=
  let heap :=
    foldl (λ t l, sift n v t pl n (heap_get t pl l) l (l + l))
          tosort (rev (seq 1 (Nat.div2 n))) in
  foldl (λ t m,
           let tmp := heap_get t pl m in
           let t' := heap_set t pl m (heap_get t pl 1) in
           sift m v t' pl (m - 1) tmp 1 2)
        heap (rev (seq 2 (n - 1))).

(** The work of [aquicksort] on the segment from [pl] to [pr], down to
    the moment that segment and all that it pushed are done.  [popped]
    tells that the segment comes off the stack (or is the whole array):
    only then is the depth looked at. *)
Fixpoint aquicksort_segment (fuel : nat) (v : list Q) (popped : bool)
    (cdepth : Z) (tosort : list nat) (pl pr : nat) : list nat :=
  match fuel with
  | 0 => tosort
  | S fuel' =>
      if popped && (cdepth <? 0)%Z then aheapsort v tosort pl (pr - pl + 1)
      else if SMALL_QUICKSORT <? pr - pl then
        let '(t, pi) := quicksort_partition v tosort pl pr in
        let cdepth' := (cdepth - 1)%Z in
        if pi - pl <? pr - pi then
          (* the right part is pushed, the left part goes on *)
          let t' := aquicksort_segment fuel' v false cdepth' t pl (pi - 1) in
          aquicksort_segment fuel' v true cdepth' t' (pi + 1) pr
        else
          let t' := aquicksort_segment fuel' v false cdepth' t (pi + 1) pr in
          aquicksort_segment fuel' v true cdepth' t' pl (pi - 1)
      else insertion_sort v tosort pl pr
  end.

(** [v.argsort(kind='quicksort')]: the positions 0, 1, ... sorted by
    [aquicksort]. *)
Definition argsort_quicksort (v : list Q) : list nat :=
  let num := length v in
  aquicksort_segment (S num) v true (depth_limit num) (seq 0 num)
                     0 (num - 1).

(** pandas' [nargsort(items, kind='quicksort', ascending=False)] on a
    column without NaN. *)
Definition nargsort_quicksort (items : list Q) : list nat :=
  let idx := seq 0 (length items) in
  let non_nans := rev items in
  let non_nan_idx := rev idx in
  let indexer := map (item non_nan_idx) (argsort_quicksort non_nans) in
  rev indexer.

(** ** A small concrete environment

    One-dimensional embeddings read from a table (a text outside the table
    makes the embedding model raise), the squared distance, pages tagged
    with policy name and page number, and a line-oriented printer and
    parser standing for [str] and [ast.literal_eval]. *)
Module Demo.

Definition vec : Type := Q.
Definition meta : Type := (string * string)%type.

Definition q_diabetes : string := "Does the policy cover diabetes?".
Definition q_diabetic : string := "Is diabetic care covered?".
Definition q_waiting : string := "Is there a waiting period?".
Definition q_premium : string := "What is the premium for seniors?".
Definition c_diabetes : string :=
  "Diabetic coverage is included after a 2-year waiting period.".
Definition c_premium : string :=
  "Premium rates for individuals above 60 years of age.".

Definition embedding_table : list (string * Q) :=
  [ (q_diabetes, 0%Q); (q_diabetic, 0.25%Q); (q_waiting, 0.6%Q);
    (q_premium, 2%Q); (c_diabetes, 0.2%Q); (c_premium, 2.2%Q) ].

Fixpoint lookup_text (t : list (string * Q)) (s : string) : option Q :=
  match t with
  | [] => None
  | (k, v) :: t' => if String.eqb k s then Some v else lookup_text t' s
  end.

Definition embedding_function (s : string) : option vec :=
  lookup_text embedding_table s.

Definition distance (a b : vec) : Q := Qred ((a - b) * (a - b)).

(** The pieces of [s] between occurrences of [c]. *)
Fixpoint split_on (c : Ascii.ascii) (s : string) : list string :=
  match s with
  | EmptyString => [EmptyString]
  | String a s' =>
      if Ascii.eqb a c then EmptyString :: split_on c s'
      else match split_on c s' with
           | p :: ps => String a p :: ps
           | [] => [String a EmptyString]
           end
  end.

Definition newline : Ascii.ascii := Ascii.ascii_of_nat 10.
Definition tab : Ascii.ascii := Ascii.ascii_of_nat 9.
Definition slash : Ascii.ascii := Ascii.ascii_of_nat 47.

(** One item per line, every line closed by a newline. *)
Definition print_lines (items : list string) : string :=
  String.concat EmptyString
    (map (λ s, (s ++ String newline EmptyString)%string) items).

Definition parse_lines (s : string) : option (list string) :=
  match rev (split_on newline s) with
  | EmptyString :: items => Some (rev items)
  | _ => None
  end.

Definition print_Z (z : Z) : string := NilZero.string_of_int (Z.to_int z).
Definition parse_Z (s : string) : option Z :=
  match NilZero.int_of_string s with
  | Some i => Some (Z.of_int i)
  | None => None
  end.

(** A number prints as numerator, slash, denominator. *)
Definition print_Q (x : Q) : string :=
  (print_Z (Qnum x) ++ String slash EmptyString
   ++ print_Z (Zpos (Qden x)))%string.

Definition parse_Q (s : string) : option Q :=
  match split_on slash s with
  | [n; d] =>
      match parse_Z n, parse_Z d with
      | Some n', Some (Zpos d') => Some (Qmake n' d')
      | _, _ => None
      end
  | _ => None
  end.

(** A page's metadata prints as policy name, tab, page number. *)
Definition print_meta (m : meta) : string :=
  (fst m ++ String tab EmptyString ++ snd m)%string.

Definition parse_meta (s : string) : option meta :=
  match split_on tab s with
  | [name; page] => Some (name, page)
  | _ => None
  end.

Definition parse_items {A} (parse : string → option A) (s : string)
  : option (list A) :=
  match parse_lines s with
  | Some items => mapM parse items
  | None => None
  end.

#[global] Instance literal_documents : Literal (list string) :=
  {| py_str := print_lines; literal_eval := parse_lines |}.

#[global] Instance literal_distances : Literal (list Q) :=
  {| py_str := λ l, print_lines (map print_Q l);
     literal_eval := parse_items parse_Q |}.

#[global] Instance literal_metadatas : Literal (list meta) :=
  {| py_str := λ l, print_lines (map print_meta l);
     literal_eval := parse_items parse_meta |}.

(** The cross-encoder: a table of scores; it raises on the premium page
    when asked about the waiting period. *)
Definition cross_encoder (query_text doc : string) : option Q :=
  if String.eqb query_text q_waiting && String.eqb doc c_premium then None
  else if String.eqb doc c_diabetes then Some 0.9%Q
  else Some 0.3%Q.

(** A store of two pages, one of a single page, and no cached query. *)
Definition two_pages : Collection vec meta :=
  [ mkEntry "0" 0.2%Q c_diabetes ("Policy_A.pdf", "Page 5");
    mkEntry "1" 2.2%Q c_premium ("Policy_A.pdf", "Page 9") ].

Definition one_page : Collection vec meta :=
  [ mkEntry "0" 0.2%Q c_diabetes ("Policy_A.pdf", "Page 5") ].

Definition fresh (c : Collection vec meta) : World vec meta :=
  mkWorld c [] [] [].

Definition retrieve := retrieve_documents vec embedding_function distance meta.
Definition rerank := rerank_results vec meta cross_encoder.

(** The world after [retrieve_documents(q)] with the defaults. *)
Definition ask (q : string) (w : World vec meta) : World vec meta :=
  snd (retrieve q default_n_results default_cache_threshold w).

Definition asked_diabetes : World vec meta := ask q_diabetes (fresh two_pages).
Definition asked_waiting : World vec meta := ask q_waiting asked_diabetes.
Definition asked_one_page : World vec meta := ask q_diabetes (fresh one_page).

(** The frame of the first call, and the record that call left. *)
Definition frame_diabetes : DataFrame meta :=
  [ mkRow 0 c_diabetes ("Policy_A.pdf", "Page 5") (1 # 25) None;
    mkRow 1 c_premium ("Policy_A.pdf", "Page 9") (121 # 25) None ].

Definition results_diabetes : QueryResult meta :=
  {| ids := ["0"; "1"];
     documents := [c_diabetes; c_premium];
     metadatas := [("Policy_A.pdf", "Page 5"); ("Policy_A.pdf", "Page 9")];
     distances := [1 # 25; 121 # 25] |}.

Definition entry_diabetes : Entry vec CacheData :=
  cache_entry q_diabetes 0%Q results_diabetes.

(** The frame of the second call, for the waiting period. *)
Definition frame_waiting : DataFrame meta :=
  [ mkRow 0 c_diabetes ("Policy_A.pdf", "Page 5") (4 # 25) None;
    mkRow 1 c_premium ("Policy_A.pdf", "Page 9") (64 # 25) None ].

Definition results_waiting : QueryResult meta :=
  {| ids := ["0"; "1"];
     documents := [c_diabetes; c_premium];
     metadatas := [("Policy_A.pdf", "Page 5"); ("Policy_A.pdf", "Page 9")];
     distances := [4 # 25; 64 # 25] |}.

Definition entry_waiting : Entry vec CacheData :=
  cache_entry q_waiting 0.6%Q results_waiting.

(** A frame of three pages, two of which the cross-encoder scores alike,
    and a world that holds it. *)
Definition c_loading : string := "Senior citizens pay a loading.".

Definition three_rows : DataFrame meta :=
  [ mkRow 0 c_premium ("Policy_A.pdf", "Page 9") 0.5%Q None;
    mkRow 1 c_loading ("Policy_B.pdf", "Page 2") 0.7%Q None;
    mkRow 2 c_diabetes ("Policy_A.pdf", "Page 5") 0.9%Q None ].

Definition holding (df : DataFrame meta) : World vec meta :=
  mkWorld two_pages [] [df] [].

(** Twenty clauses of a policy and a cross-encoder for them: clause [i]
    scores [20 - i], but for clause 10, which scores 11 as clause 9 does.
    The frame lists them from clause 0 on, so by descending score. *)
Definition clause (i : nat) : string :=
  String.append "Clause " (NilZero.string_of_uint (Nat.to_uint i)).

Definition clause_score (i : nat) : Q :=
  if i =? 10 then 11%Q else inject_Z (20 - Z.of_nat i).

Definition clause_encoder (query_text doc : string) : option Q :=
  lookup_text (map (λ i, (clause i, clause_score i)) (seq 0 20)) doc.

Definition twenty_rows : DataFrame meta :=
  map (λ i, mkRow i (clause i) ("Policy_B.pdf", clause i)
              (Z.of_nat i # 100) None)
      (seq 0 20).

End Demo.

(** * Properties *)

(** ** Comparing floats *)

Lemma Qle_bool_false (x y : Q) : Qle_bool x y = false ↔ (y < x)%Q.
Proof.
  split; intros H.
  - apply Qnot_le_lt. intros Hle. apply Qle_bool_iff in Hle. congruence.
  - destruct (Qle_bool x y) eqn:E; [|done].
    apply Qle_bool_iff in E. apply Qlt_not_le in H. contradiction.
Qed.

(** ** The nearest-neighbour order *)

Section Nearest.

Context {A : Type}.
Implicit Types (x y : Q * A) (l : list (Q * A)).

Lemma insert_nearer_perm x l : insert_nearer x l ≡ₚ x :: l.
Proof.
  induction l as [|y l IH]; simpl; [done|].
  destruct (Qle_bool (fst x) (fst y)); [done|].
  rewrite IH. apply Permutation_swap.
Qed.

Lemma by_distance_perm l : by_distance l ≡ₚ l.
Proof.
  induction l as [|x l IH]; simpl; [done|].
  rewrite insert_nearer_perm. by rewrite IH.
Qed.

Lemma insert_nearer_sorted x l :
  StronglySorted nearer l → StronglySorted nearer (insert_nearer x l).
Proof.
  induction 1 as [|y l Hs IH Hy]; simpl.
  - repeat constructor.
  - destruct (Qle_bool (fst x) (fst y)) eqn:E.
    + apply Qle_bool_iff in E. constructor; [by constructor|].
      constructor; [done|].
      eapply Forall_impl; [exact Hy|]. intros z Hz. unfold nearer in *.
      by apply Qle_trans with (fst y).
    + apply Qle_bool_false in E. constructor; [done|].
      rewrite insert_nearer_perm. constructor; [|done].
      unfold nearer. by apply Qlt_le_weak.
Qed.

Lemma by_distance_sorted l : StronglySorted nearer (by_distance l).
Proof.
  induction l as [|x l IH]; simpl; [constructor|].
  by apply insert_nearer_sorted.
Qed.

(** The first neighbour is at most as far as any record. *)
Lemma by_distance_head_min l x rest y :
  by_distance l = x :: rest → y ∈ l → (fst x <= fst y)%Q.
Proof.
  intros Hl Hy. pose proof (by_distance_sorted l) as Hs.
  rewrite <- (by_distance_perm l), Hl in Hy. rewrite Hl in Hs.
  apply StronglySorted_inv in Hs as [_ Hx].
  apply elem_of_cons in Hy as [->|Hy]; [apply Qle_refl|].
  rewrite Forall_forall in Hx. by apply Hx.
Qed.

(** A record added last that is strictly nearer than all the others comes
    first. *)
Lemma by_distance_snoc_nearest l x :
  (∀ y, y ∈ l → (fst x < fst y)%Q) →
  by_distance (l ++ [x]) = x :: by_distance l.
Proof.
  unfold by_distance.
  induction l as [|y l IH]; intros Hx; simpl; [done|].
  rewrite IH.
  - simpl. assert (Qle_bool (fst y) (fst x) = false) as ->; [|done].
    apply Qle_bool_false, Hx. by left.
  - intros z Hz. apply Hx. by right.
Qed.

Lemma by_distance_length l : length (by_distance l) = length l.
Proof. by rewrite by_distance_perm. Qed.

End Nearest.

(** ** The retriever *)

Section Retriever.

Variable vec : Type.
Variable embedding_function : string → option vec.
Variable distance : vec → vec → Q.
Variable meta : Type.
Context `{Ldocs : Literal (list string)}.
Context `{Ldists : Literal (list Q)}.
Context `{Lmetas : Literal (list meta)}.

Abbreviation W := (World vec meta).
Abbreviation retrieve :=
  (retrieve_documents vec embedding_function distance meta).
Abbreviation lookup_in c q n := (query embedding_function distance c q n).
Abbreviation miss_line :=
  (@Cache_miss_Retrieving_from_main_collection meta).

Lemma frame_rows_length i docs metas dists (df : DataFrame meta) :
  frame_rows i docs metas dists = Some df → length df = length docs.
Proof.
  revert i metas dists df.
  induction docs as [|d docs IH]; intros i [|m metas] [|x dists] df; simpl;
    try discriminate.
  - by intros [= <-].
  - destruct (frame_rows (S i) docs metas dists) eqn:E; [|discriminate].
    intros [= <-]. simpl. f_equal. by eapply IH.
Qed.

(** Three columns read off one list make a frame. *)
Lemma frame_rows_fmap {B} (fd : B → string) (fm : B → meta) (fq : B → Q)
    (l : list B) i :
  is_Some (frame_rows i (map fd l) (map fm l) (map fq l)).
Proof.
  revert i. induction l as [|b l IH]; intros i; simpl; [by eexists|].
  destruct (IH (S i)) as [rows ->]. by eexists.
Qed.

(** What a successful query is made of. *)
Lemma query_inv {M} (c : Collection vec M) q n res :
  lookup_in c q n = inr res →
  (0 < n)%Z ∧ ∃ v, embedding_function q = Some v ∧
    let hits := take (Z.to_nat n) (neighbours distance v c) in
    res = {| ids := map (λ h, id (snd h)) hits;
             documents := map (λ h, document (snd h)) hits;
             metadatas := map (λ h, metadata (snd h)) hits;
             distances := map fst hits |}.
Proof.
  unfold query. destruct (n <=? 0)%Z eqn:En; [discriminate|].
  apply Z.leb_gt in En.
  destruct (embedding_function q) as [v|]; [|discriminate].
  intros [= <-]. split; [done|]. by exists v.
Qed.

(** The lists of a query result always make a frame, of as many rows as
    asked for or as the collection holds, whichever is less. *)
Lemma query_frame (c : Collection vec meta) q n res :
  lookup_in c q n = inr res →
  ∃ df, frame_rows 0 (documents res) (metadatas res) (distances res)
        = Some df
        ∧ length df = Z.to_nat n `min` length c.
Proof.
  intros (_ & v & _ & ->)%query_inv. simpl.
  destruct (frame_rows_fmap (λ h, document (snd h)) (λ h, metadata (snd h))
              fst (take (Z.to_nat n) (neighbours distance v c)) 0)
    as [df Hdf].
  exists df. split; [done|].
  apply frame_rows_length in Hdf. rewrite Hdf, length_map, length_take.
  unfold neighbours. by rewrite by_distance_length, length_map.
Qed.

(** The nearest stored record decides: what a lookup with [n_results=1]
    returns. *)
Lemma query_one {M} (c : Collection vec M) q v :
  embedding_function q = Some v →
  lookup_in c q 1 =
    inr match neighbours distance v c with
        | [] => mkQueryResult [] [] [] []
        | h :: _ => mkQueryResult [id (snd h)] [document (snd h)]
                                  [metadata (snd h)] [fst h]
        end.
Proof.
  intros Hv. unfold query. simpl. rewrite Hv.
  by destruct (neighbours distance v c).
Qed.

(** The hit path: the frame decoded from the nearest record; only the two
    lines are printed. *)
Lemma retrieve_hit (w : W) q n thr cr d ds m ms :
  lookup_in (cache_collection w) q 1 = inr cr →
  distances cr = d :: ds → Qle_bool d thr = true →
  metadatas cr = m :: ms →
  retrieve q n thr w =
    (cached_frame m,
     printed w [Cache_hit_for_query q; Cache_retrieved_data m]).
Proof.
  intros Hq Hd Hle Hm.
  unfold retrieve_documents, cell_bind, cache_collection_query,
    within_threshold, cached_frame, printed.
  rewrite Hq, Hd, Hle. simpl. rewrite Hm. simpl.
  unfold ast_literal_eval, pd_DataFrame, call. rewrite <- !app_assoc. simpl.
  destruct (literal_eval (cached_documents m)); [|done].
  destruct (literal_eval (cached_distances m)); [|done].
  by destruct (literal_eval (cached_metadatas m)).
Qed.

(** The miss path: the store is queried; if that returns, the record is
    added unless its id is taken, and the frame of the results returned. *)
Lemma retrieve_miss (w : W) q n thr cr v :
  lookup_in (cache_collection w) q 1 = inr cr →
  within_threshold cr thr = false →
  embedding_function q = Some v →
  retrieve q n thr w =
    match lookup_in (collection w) q n with
    | inl e => (inl e, printed w [miss_line])
    | inr results =>
        (match frame_rows 0 (documents results) (metadatas results)
                 (distances results) with
         | Some rows => inr rows
         | None => inl FrameError
         end,
         mkWorld (collection w)
           (if bool_decide (q ∈ map id (cache_collection w))
            then cache_collection w
            else cache_collection w
                 ++ [cache_entry q v results])
           (frames w)
           (stdout w ++ [miss_line; Query_added_to_cache;
                         Retrieved_data_from_collection results]))
    end.
Proof.
  intros Hq Hth Hv.
  unfold retrieve_documents, cell_bind, cache_collection_query, printed.
  rewrite Hq, Hth. simpl. unfold collection_query. simpl.
  destruct (lookup_in (collection w) q n) as [e|results]; [done|].
  unfold cache_collection_add, add. simpl. rewrite Hv. simpl.
  unfold pd_DataFrame, call, cache_entry. by rewrite <- !app_assoc.
Qed.

(** Every call goes one of three ways: the lookup raises, it hits the
    nearest record, or it misses. *)
Lemma retrieve_cases (w : W) q n thr :
  (embedding_function q = None
   ∧ lookup_in (cache_collection w) q 1 = inl EmbeddingError
   ∧ retrieve q n thr w = (inl EmbeddingError, w))
  ∨ (∃ v d e rest,
       embedding_function q = Some v
       ∧ neighbours distance v (cache_collection w) = (d, e) :: rest
       ∧ (d <= thr)%Q
       ∧ retrieve q n thr w =
           (cached_frame (metadata e),
            printed w [Cache_hit_for_query q;
                                Cache_retrieved_data (metadata e)]))
  ∨ (∃ v cr,
       embedding_function q = Some v
       ∧ lookup_in (cache_collection w) q 1 = inr cr
       ∧ within_threshold cr thr = false
       ∧ (∀ e, e ∈ cache_collection w →
               (thr < distance v (embedding e))%Q)).
Proof.
  destruct (embedding_function q) as [v|] eqn:Hv.
  - right. pose proof (query_one (cache_collection w) q v Hv) as Hq.
    destruct (neighbours distance v (cache_collection w))
      as [|[d e] rest] eqn:Hn.
    + right. eexists v, _. split_and!; [done|exact Hq|done|].
      intros e He. apply (f_equal length) in Hn.
      unfold neighbours in Hn. rewrite by_distance_length, length_map in Hn.
      destruct (cache_collection w); [by apply elem_of_nil in He|done].
    + destruct (Qle_bool d thr) eqn:Hd.
      * left. exists v, d, e, rest.
        split_and!; [done|done|by apply Qle_bool_iff|].
        by eapply retrieve_hit.
      * right. eexists v, _. split_and!; [done|exact Hq|exact Hd|].
        intros e' He'. apply Qle_bool_false in Hd.
        eapply Qlt_le_trans; [exact Hd|].
        apply (by_distance_head_min _ _ _ (distance v (embedding e'), e') Hn).
        apply list_elem_of_fmap. by exists e'.
  - left. split_and!; [done| |].
    + unfold query. simpl. by rewrite Hv.
    + unfold retrieve_documents, cell_bind, cache_collection_query, query.
      simpl. by rewrite Hv.
Qed.

(** A record added last whose embedding is strictly nearer to [v] than
    every older one is the first neighbour of [v]. *)
Lemma neighbours_snoc_nearest {M} (c c0 : Collection vec M) e1 v :
  c = c0 ++ [e1] →
  (∀ e, e ∈ c0 → (distance v (embedding e1) < distance v (embedding e))%Q) →
  neighbours distance v c =
    (distance v (embedding e1), e1) :: neighbours distance v c0.
Proof.
  intros -> Hfar. unfold neighbours. rewrite map_app. simpl.
  apply by_distance_snoc_nearest.
  intros [d e] (e' & [= -> ->] & He')%list_elem_of_fmap. simpl.
  by apply Hfar.
Qed.

(** After a call has written the record of [q1], a query [q2] that is
    strictly nearer to [q1] than to every older record is answered from
    that record when within the threshold. *)
Lemma hit_on_stored_query (w1 : W) c0 q1 v1 results q2 v2 n2 thr df :
  cache_collection w1 = c0 ++ [cache_entry q1 v1 results] →
  embedding_function q2 = Some v2 →
  (∀ e, e ∈ c0 → (distance v2 v1 < distance v2 (embedding e))%Q) →
  payload_round_trips results →
  frame_rows 0 (documents results) (metadatas results)
    (distances results) = Some df →
  (distance v2 v1 <= thr)%Q →
  retrieve q2 n2 thr w1 =
    (inr df,
     printed w1
       [Cache_hit_for_query q2;
        Cache_retrieved_data
          (metadata (cache_entry q1 v1 results))]).
Proof.
  intros Hc Hv2 Hfar (Hdocs & Hdists & Hmetas) Hdf Hthr.
  pose proof (query_one (cache_collection w1) q2 v2 Hv2) as Hq.
  rewrite (neighbours_snoc_nearest _ c0 _ v2 Hc Hfar) in Hq. simpl in Hq.
  rewrite (retrieve_hit w1 q2 n2 thr _ _ _ _ _ Hq eq_refl
             (proj2 (Qle_bool_iff _ _) Hthr) eq_refl).
  f_equal. unfold cached_frame. simpl.
  unfold round_trips in Hdocs, Hdists, Hmetas.
  by rewrite Hdocs, Hdists, Hmetas, Hdf.
Qed.




(** The same query beyond the threshold goes to the store. *)
Lemma miss_on_stored_query (w1 : W) c0 q1 v1 results q2 v2 n2 thr :
  cache_collection w1 = c0 ++ [cache_entry q1 v1 results] →
  embedding_function q2 = Some v2 →
  (∀ e, e ∈ c0 → (distance v2 v1 < distance v2 (embedding e))%Q) →
  (thr < distance v2 v1)%Q →
  ∃ out w2, retrieve q2 n2 thr w1 = (out, w2) ∧ miss_path w1 w2.
Proof.
  intros Hc Hv2 Hfar Hthr.
  pose proof (query_one (cache_collection w1) q2 v2 Hv2) as Hq.
  rewrite (neighbours_snoc_nearest _ c0 _ v2 Hc Hfar) in Hq. simpl in Hq.
  rewrite (retrieve_miss w1 q2 n2 thr _ v2 Hq); [|by apply Qle_bool_false|done].
  destruct (lookup_in (collection w1) q2 n2) as [e|res];
    eexists _, _; (split; [done|]); by eexists.
Qed.

(** A call that appended a record to the cache went through the miss path,
    queried the store with success and returned the frame of its results. *)
Lemma retrieve_appends (w0 : W) q1 n1 thr1 out w1 e1 :
  retrieve q1 n1 thr1 w0 = (out, w1) →
  cache_collection w1 = cache_collection w0 ++ [e1] →
  ∃ v1 results df,
    embedding_function q1 = Some v1
    ∧ lookup_in (collection w0) q1 n1 = inr results
    ∧ e1 = cache_entry q1 v1 results
    ∧ frame_rows 0 (documents results) (metadatas results)
        (distances results) = Some df
    ∧ length df = Z.to_nat n1 `min` length (collection w0)
    ∧ out = inr df
    ∧ miss_path w0 w1
    ∧ collection w1 = collection w0.
Proof.
  intros Hr Hc.
  assert (∀ c : Collection vec CacheData, c ≠ c ++ [e1]) as Hne.
  { intros c Heq. apply (f_equal length) in Heq.
    rewrite length_app in Heq. simpl in Heq. lia. }
  destruct (retrieve_cases w0 q1 n1 thr1)
    as [(_ & _ & H)|[(v & d & e & rest & _ & _ & _ & H)
                    |(v & cr & Hv & Hq & Hth & _)]].
  - rewrite H in Hr. injection Hr as <- <-. by destruct (Hne _ Hc).
  - rewrite H in Hr. injection Hr as <- <-. by destruct (Hne _ Hc).
  - rewrite (retrieve_miss w0 q1 n1 thr1 cr v Hq Hth Hv) in Hr.
    destruct (lookup_in (collection w0) q1 n1) as [e|results] eqn:Hs.
    + injection Hr as <- <-. by destruct (Hne _ Hc).
    + destruct (query_frame _ _ _ _ Hs) as (df & Hdf & Hlen).
      rewrite Hdf in Hr. injection Hr as <- <-. simpl in Hc.
      case_bool_decide; [by destruct (Hne _ Hc)|].
      apply app_inj_tail in Hc as [_ <-].
      exists v, results, df. split_and!; try done. by eexists.
Qed.

(** A cache written by [retrieve_documents] stays one: the record a miss
    adds carries the embedding of its id. *)
Lemma retrieve_keeps_cache_wf (w : W) q n thr out w' :
  cache_wf embedding_function (cache_collection w) →
  retrieve q n thr w = (out, w') →
  cache_wf embedding_function (cache_collection w').
Proof.
  intros Hwf Hr.
  destruct (retrieve_cases w q n thr)
    as [(_ & _ & H)|[(v & d & e & rest & _ & _ & _ & H)
                    |(v & cr & Hv & Hq & Hth & _)]].
  - rewrite H in Hr. by injection Hr as _ <-.
  - rewrite H in Hr. by injection Hr as _ <-.
  - rewrite (retrieve_miss w q n thr cr v Hq Hth Hv) in Hr.
    destruct (lookup_in (collection w) q n) as [e|results].
    + by injection Hr as _ <-.
    + injection Hr as _ <-. simpl. case_bool_decide; [done|].
      intros e [He| ->%list_elem_of_singleton]%elem_of_app; [by apply Hwf|].
      exact Hv.
Qed.

(** The ids of the cache stay distinct. *)
Lemma retrieve_keeps_ids_distinct (w : W) q n thr out w' :
  NoDup (map id (cache_collection w)) →
  retrieve q n thr w = (out, w') →
  NoDup (map id (cache_collection w')).
Proof.
  intros Hnd Hr.
  destruct (retrieve_cases w q n thr)
    as [(_ & _ & H)|[(v & d & e & rest & _ & _ & _ & H)
                    |(v & cr & Hv & Hq & Hth & _)]].
  - rewrite H in Hr. by injection Hr as _ <-.
  - rewrite H in Hr. by injection Hr as _ <-.
  - rewrite (retrieve_miss w q n thr cr v Hq Hth Hv) in Hr.
    destruct (lookup_in (collection w) q n) as [e|results].
    + by injection Hr as _ <-.
    + injection Hr as _ <-. simpl. case_bool_decide as Hin; [done|].
      rewrite map_app. simpl. apply NoDup_app. split_and!; [done| |].
      * intros x Hx ->%list_elem_of_singleton. contradiction.
      * apply NoDup_singleton.
Qed.

(** C1 (amended).  Cache hit on the nearest stored query: when the call for
    Q1 has stored a record and every record that was in the cache before is
    strictly farther from Q2 than Q1 is, a later call for Q2 whose distance
    to the stored Q1 is at most [cache_threshold] takes the hit path,
    leaves the cache as it is and returns the frame returned for Q1
    (the payload surviving [str] then [ast.literal_eval]); at a distance
    above the threshold it takes the miss path. *)
Theorem cache_hit_on_nearest_stored_query
    (w0 : W) q1 n1 thr1 out1 w1 e1 q2 n2 thr v2 :
  retrieve q1 n1 thr1 w0 = (out1, w1) →
  cache_collection w1 = cache_collection w0 ++ [e1] →
  embedding_function q2 = Some v2 →
  (∀ e, e ∈ cache_collection w0 →
        (distance v2 (embedding e1) < distance v2 (embedding e))%Q) →
  (∀ results, lookup_in (collection w0) q1 n1 = inr results →
              payload_round_trips results) →
  ∃ r1,
    out1 = inr r1 ∧ id e1 = q1
    ∧ embedding_function q1 = Some (embedding e1)
    ∧ ((distance v2 (embedding e1) <= thr)%Q →
       ∃ w2, retrieve q2 n2 thr w1 = (inr r1, w2)
             ∧ hit_path q2 w1 w2
             ∧ cache_collection w2 = cache_collection w1)
    ∧ ((thr < distance v2 (embedding e1))%Q →
       ∃ out2 w2, retrieve q2 n2 thr w1 = (out2, w2)
                  ∧ miss_path w1 w2).
Proof.
  intros Hr Hc Hv2 Hfar Hrt.
  destruct (retrieve_appends w0 q1 n1 thr1 out1 w1 e1 Hr Hc)
    as (v1 & results & df & Hv1 & Hs & -> & Hdf & _ & -> & _ & _).
  exists df. split_and!; [done|done|done| |].
  - intros Hthr. eexists. split_and!.
    + eapply hit_on_stored_query; eauto.
    + by eexists.
    + done.
  - intros Hthr. eapply miss_on_stored_query; eauto.
Qed.


(** C6.  No partial cache write on retrieval failure: when the lookup
    raises (the embedding failed), or the lookup misses and the query of
    the store raises, the call raises that exception and the cache is as
    before; whenever the call raises the cache is as before; and a cache
    that has changed means the query of the store had returned. *)
Theorem no_cache_write_on_failure (w : W) q n thr :
  (∀ e, lookup_in (cache_collection w) q 1 = inl e →
        retrieve q n thr w = (inl e, w))
  ∧ (∀ e cr, lookup_in (cache_collection w) q 1 = inr cr →
             within_threshold cr thr = false →
             lookup_in (collection w) q n = inl e →
             ∃ w', retrieve q n thr w = (inl e, w')
                   ∧ cache_collection w' = cache_collection w)
  ∧ (∀ e w', retrieve q n thr w = (inl e, w') →
             cache_collection w' = cache_collection w)
  ∧ (∀ out w', retrieve q n thr w = (out, w') →
               cache_collection w' ≠ cache_collection w →
               ∃ results, lookup_in (collection w) q n = inr results).
Proof.
  destruct (retrieve_cases w q n thr)
    as [(_ & Hq & H)|[(v & d & e0 & rest & Hv & Hn & Hle & H)
                     |(v & cr & Hv & Hq & Hth & _)]].
  - split_and!.
    + intros e He. rewrite Hq in He. by injection He as <-.
    + intros e cr Hq'. rewrite Hq in Hq'. discriminate.
    + intros e w' Hr. rewrite H in Hr. by injection Hr as _ <-.
    + intros out w' Hr. rewrite H in Hr. by injection Hr as _ <-.
  - pose proof (query_one (cache_collection w) q v Hv) as Hq.
    rewrite Hn in Hq. split_and!.
    + intros e He. rewrite Hq in He. discriminate.
    + intros e cr Hq' Hth. rewrite Hq in Hq'. injection Hq' as <-.
      unfold within_threshold in Hth. simpl in Hth.
      apply Qle_bool_iff in Hle. congruence.
    + intros e w' Hr. rewrite H in Hr. by injection Hr as _ <-.
    + intros out w' Hr. rewrite H in Hr. by injection Hr as _ <-.
  - pose proof (retrieve_miss w q n thr cr v Hq Hth Hv) as H.
    split_and!.
    + intros e He. rewrite Hq in He. discriminate.
    + intros e cr' _ _ Hs. rewrite Hs in H. by eexists.
    + intros e w' Hr. rewrite H in Hr.
      destruct (lookup_in (collection w) q n) as [e'|results] eqn:Hs.
      * by injection Hr as _ <-.
      * destruct (query_frame _ _ _ _ Hs) as (df & Hdf & _).
        rewrite Hdf in Hr. discriminate.
    + intros out w' Hr Hne. rewrite H in Hr.
      destruct (lookup_in (collection w) q n) as [e'|results] eqn:Hs.
      * injection Hr as _ <-. by destruct Hne.
      * by eexists.
Qed.

(** C8 (amended).  Empty-cache boundary: on an empty cache, for every
    query that the embedding model returns a vector for and every
    threshold, the lookup returns no record and does not raise, and
    [retrieve_documents] goes to the store: it takes the miss path, raises
    what the query of the store raises, and otherwise returns the frame of
    its results and leaves the query as the only record of the cache. *)
Theorem empty_cache_misses (w : W) q n thr v :
  cache_collection w = [] →
  embedding_function q = Some v →
  lookup_in (cache_collection w) q 1 = inr (mkQueryResult [] [] [] [])
  ∧ ∃ out w',
      retrieve q n thr w = (out, w') ∧ miss_path w w'
      ∧ match lookup_in (collection w) q n with
        | inl e => out = inl e ∧ cache_collection w' = []
        | inr results =>
            (∃ df, out = inr df
                   ∧ frame_rows 0 (documents results)
                       (metadatas results) (distances results) = Some df)
            ∧ cache_collection w' = [cache_entry q v results]
        end.
Proof.
  intros Hc Hv.
  pose proof (query_one (cache_collection w) q v Hv) as Hq.
  rewrite Hc in Hq at 2. simpl in Hq. split; [exact Hq|].
  pose proof (retrieve_miss w q n thr _ v Hq eq_refl Hv) as H.
  rewrite Hc in H. simpl in H.
  destruct (lookup_in (collection w) q n) as [e|results] eqn:Hs.
  - eexists _, _. split_and!; [exact H|by eexists|done|done].
  - destruct (query_frame _ _ _ _ Hs) as (df & Hdf & _). rewrite Hdf in H.
    eexists _, _. split_and!; [exact H|by eexists|by exists df|done].
Qed.


(** C3 (amended).  Storing under a query text that the cache already holds
    does not fail and adds no duplicate, but it does not replace either:
    the record stored first stays, so that is the one a later lookup
    returns. *)
Theorem store_keeps_first_entry {M} (c : Collection vec M) text key v
    (m : M) :
  embedding_function text = Some v →
  ∃ c', add embedding_function c text key m = inr c'
        ∧ (key ∈ map id c → c' = c)
        ∧ (key ∉ map id c → c' = c ++ [mkEntry key v text m])
        ∧ (NoDup (map id c) → NoDup (map id c')).
Proof.
  intros Hv. unfold add. rewrite Hv. eexists. split; [done|].
  case_bool_decide as Hin; split_and!; try done.
  intros Hnd. rewrite map_app. simpl. apply NoDup_app. split_and!.
  - done.
  - intros x Hx ->%list_elem_of_singleton. contradiction.
  - apply NoDup_singleton.
Qed.

End Retriever.

(** ** The reranker *)

Section Reranker.

Variable vec : Type.
Variable meta : Type.
Variable cross_encoder : string → string → option Q.
Variable nargsort : list Q → list nat.

Abbreviation W := (World vec meta).
Abbreviation rerank := (rerank_results vec meta cross_encoder nargsort).
Abbreviation scored q := (λ r : Row meta, cross_encoder q (Documents r)).
Abbreviation with_score :=
  (λ (r : Row meta) (s : Q),
     mkRow (label r) (Documents r) (Metadata r) (Distances r) (Some s)).

(** The scores asked of the cross-encoder are those of the rows' texts. *)
Lemma predict_inputs q (rows : DataFrame meta) :
  mapM (λ p, cross_encoder (fst p) (snd p))
       (map (λ doc, (q, doc)) (map Documents rows))
  = mapM (scored q) rows.
Proof. induction rows as [|r rows IH]; simpl; [done|]. by rewrite IH. Qed.

Lemma StronglySorted_lookup {A} (R : A → A → Prop) (l : list A) i j a b :
  StronglySorted R l → i < j → l !! i = Some a → l !! j = Some b → R a b.
Proof.
  intros Hs. revert i j. induction Hs as [|x l Hs IH Hx]; intros i j Hij Hi Hj.
  - by rewrite lookup_nil in Hi.
  - destruct j as [|j]; [lia|]. simpl in Hj. destruct i as [|i].
    + injection Hi as <-. rewrite Forall_forall in Hx. apply Hx.
      by eapply list_elem_of_lookup_2.
    + simpl in Hi. apply (IH i j); [lia|done|done].
Qed.

(** Taking every position of a list once, in order, gives the list. *)
Lemma Forall2_lookup_seq {A} (l k : list A) :
  Forall2 (λ i y, l !! i = Some y) (seq 0 (length l)) k → k = l.
Proof.
  intros HF. apply list_eq. intros p.
  pose proof (Forall2_length _ _ _ HF) as Hlen. rewrite length_seq in Hlen.
  destruct (decide (p < length l)) as [Hp|Hp].
  - destruct (Forall2_lookup_l _ _ _ p p HF) as (y & Hy & Hl).
    { by apply lookup_seq_lt. }
    by rewrite Hy, Hl.
  - rewrite !lookup_ge_None_2; [done|lia|lia].
Qed.

(** Rows taken by an indexer that permutes the positions are a permutation
    of the rows. *)
Lemma take_rows_perm {A} (l sorted : list A) (idx : list nat) :
  idx ≡ₚ seq 0 (length l) →
  mapM (λ i, l !! i) idx = Some sorted → sorted ≡ₚ l.
Proof.
  intros Hp HF%mapM_Some.
  destruct (Permutation_Forall2 Hp HF) as (k & Hk & HF').
  apply Forall2_lookup_seq in HF'. by rewrite Hk, HF'.
Qed.

Lemma take_rows_is_Some {A} (l : list A) (idx : list nat) :
  idx ≡ₚ seq 0 (length l) → is_Some (mapM (λ i, l !! i) idx).
Proof.
  intros Hp. apply mapM_is_Some, Forall_forall. intros i Hi. simpl.
  rewrite Hp in Hi. apply elem_of_seq in Hi. apply lookup_lt_is_Some. lia.
Qed.

Lemma set_scores_zip (rows : DataFrame meta) scores :
  length rows = length scores →
  set_scores rows scores = Some (zip_with with_score rows scores).
Proof.
  revert scores. induction rows as [|r rows IH]; intros [|x scores] Hlen;
    simpl in *; try done.
  rewrite IH; [done|lia].
Qed.

Lemma with_score_candidates (rows : DataFrame meta) scores :
  length rows = length scores →
  map candidate (zip_with with_score rows scores) = map candidate rows.
Proof.
  revert scores. induction rows as [|r rows IH]; intros [|x scores] Hlen;
    simpl in *; try done.
  rewrite IH; [done|lia].
Qed.

Lemma with_score_scores (rows : DataFrame meta) scores :
  length rows = length scores →
  mapM Reranked_Scores (zip_with with_score rows scores) = Some scores.
Proof.
  revert scores. induction rows as [|r rows IH]; intros [|x scores] Hlen;
    simpl in *; try done.
  rewrite IH; [done|lia].
Qed.

(** What a call of [rerank_results] does when the cross-encoder returns a
    score for every row and the indexer permutes the positions. *)
Lemma rerank_returns (w : W) q df (rows : DataFrame meta) scores :
  frames w !! df = Some rows →
  mapM (scored q) rows = Some scores →
  nargsort scores ≡ₚ seq 0 (length scores) →
  ∃ sorted,
    mapM (λ i, zip_with with_score rows scores !! i) (nargsort scores)
    = Some sorted
    ∧ rerank q df w =
        (inr (length (frames w)),
         mkWorld (collection w) (cache_collection w)
           (<[df := zip_with with_score rows scores]> (frames w) ++ [sorted])
           (stdout w ++ [Reranking_complete_Top_scores;
                         Top_scores (take 3 scores)])).
Proof.
  intros Hdf Hsc Hp.
  pose proof (length_mapM _ _ _ Hsc) as Hlen.
  destruct (take_rows_is_Some (zip_with with_score rows scores)
              (nargsort scores)) as [sorted Hsorted].
  { rewrite length_zip_with, Hlen, Nat.min_id. exact Hp. }
  exists sorted. split; [done|].
  unfold rerank_results, cell_bind, getitem_Documents,
    setitem_Reranked_Scores, sort_values_by_Reranked_Scores, print.
  unfold DataFrame in *. rewrite Hdf.
  unfold cross_encoder_predict, call. rewrite predict_inputs.
  rewrite Hsc. simpl. rewrite Hdf.
  rewrite (set_scores_zip rows scores Hlen). simpl.
  unfold sort_values_by_Reranked_Scores. simpl.
  rewrite list_lookup_insert_eq by (by eapply lookup_lt_Some).
  rewrite (with_score_scores rows scores Hlen), Hsorted.
  by rewrite length_insert, <- !app_assoc.
Qed.

(** Where a row of the sorted frame comes from. *)
Lemma sorted_row_inv q (rows : DataFrame meta) scores idx sorted i A :
  mapM (scored q) rows = Some scores →
  mapM (λ i, zip_with with_score rows scores !! i) idx = Some sorted →
  sorted !! i = Some A →
  ∃ a r s, idx !! i = Some a ∧ rows !! a = Some r ∧ scores !! a = Some s
           ∧ A = with_score r s ∧ cross_encoder q (Documents r) = Some s.
Proof.
  intros Hsc%mapM_Some Hidx%mapM_Some HA.
  destruct (Forall2_lookup_r _ _ _ _ _ Hidx HA) as (a & Ha & Hz).
  apply lookup_zip_with_Some in Hz as (r & s & -> & Hr & Hs).
  exists a, r, s. split_and!; try done.
  destruct (Forall2_lookup_l _ _ _ _ _ Hsc Hr) as (s' & Hs' & Hsr).
  congruence.
Qed.

Lemma frames_after_rerank (fs : list (DataFrame meta)) df rows' sorted :
  df < length fs →
  (<[df := rows']> fs ++ [sorted]) !! df = Some rows'
  ∧ (<[df := rows']> fs ++ [sorted]) !! length fs = Some sorted
  ∧ ∀ k, k ≠ df → k ≠ length fs →
         (<[df := rows']> fs ++ [sorted]) !! k = fs !! k.
Proof.
  intros Hdf. split_and!.
  - rewrite lookup_app_l by (by rewrite length_insert).
    by apply list_lookup_insert_eq.
  - rewrite lookup_app_r by (by rewrite length_insert).
    by rewrite length_insert, Nat.sub_diag.
  - intros k Hk Hk'. destruct (decide (k < length fs)) as [Hlt|Hge].
    + rewrite lookup_app_l by (by rewrite length_insert).
      by apply list_lookup_insert_ne.
    + rewrite (lookup_ge_None_2 fs) by lia.
      apply lookup_ge_None_2. rewrite length_app, length_insert. simpl. lia.
Qed.

(** C4.  Reranking is a permutation: when the cross-encoder scores every
    row, [rerank_results] returns a new frame whose candidates (index
    label, text, metadata, distance) are those of the input frame, each
    once, in another order. *)
Theorem rerank_is_permutation (w : W) q df (rows : DataFrame meta) scores :
  (∀ key, nargsort key ≡ₚ seq 0 (length key)) →
  frames w !! df = Some rows →
  mapM (scored q) rows = Some scores →
  ∃ out sorted w',
    rerank q df w = (inr out, w')
    ∧ frames w' !! out = Some sorted
    ∧ map candidate sorted ≡ₚ map candidate rows.
Proof.
  intros Hp Hdf Hsc.
  destruct (rerank_returns w q df rows scores Hdf Hsc (Hp scores))
    as (sorted & Hsorted & Hr).
  pose proof (length_mapM _ _ _ Hsc) as Hlen.
  eexists _, sorted, _. split; [exact Hr|]. simpl. split.
  - by apply frames_after_rerank, (lookup_lt_Some _ _ _ Hdf).
  - apply take_rows_perm in Hsorted.
    + by rewrite Hsorted, with_score_candidates.
    + by rewrite length_zip_with, Hlen, Nat.min_id.
Qed.

(** C2 (amended).  Rerank ordering: in the frame returned by
    [rerank_results] every row carries the score the cross-encoder gave
    its text, and a row that comes before another has a score at least as
    high.  Rows of equal score keep the order of the input frame when the
    sorting routine is a stable one; the default routine of
    [sort_values] does not promise that. *)
Theorem rerank_descending_scores (w : W) q df (rows : DataFrame meta)
    scores :
  sorts_descending nargsort →
  frames w !! df = Some rows →
  mapM (scored q) rows = Some scores →
  ∃ out sorted w',
    rerank q df w = (inr out, w')
    ∧ frames w' !! out = Some sorted
    ∧ ∀ i j A B, i < j → sorted !! i = Some A → sorted !! j = Some B →
        ∃ sA sB,
          Reranked_Scores A = Some sA ∧ Reranked_Scores B = Some sB
          ∧ cross_encoder q (Documents A) = Some sA
          ∧ cross_encoder q (Documents B) = Some sB
          ∧ (sB <= sA)%Q
          ∧ (stable_sort nargsort →
             map label rows = seq 0 (length rows) →
             (sA == sB)%Q → label A < label B).
Proof.
  intros [Hp Hd] Hdf Hsc.
  destruct (rerank_returns w q df rows scores Hdf Hsc (Hp scores))
    as (sorted & Hsorted & Hr).
  eexists _, sorted, _. split; [exact Hr|]. simpl. split.
  { by apply frames_after_rerank, (lookup_lt_Some _ _ _ Hdf). }
  intros i j A B Hij HA HB.
  destruct (sorted_row_inv q rows scores _ sorted i A Hsc Hsorted HA)
    as (a & rA & sA & Hia & HrA & HsA & -> & HcA).
  destruct (sorted_row_inv q rows scores _ sorted j B Hsc Hsorted HB)
    as (b & rB & sB & Hjb & HrB & HsB & -> & HcB).
  exists sA, sB. simpl. split_and!; try done.
  - by apply (StronglySorted_lookup _ _ i j a b (Hd scores) Hij Hia Hjb).
  - intros Hst Hlab Heq.
    assert (∀ c r, rows !! c = Some r → label r = c) as Hl.
    { intros c r Hc.
      assert (map label rows !! c = Some (label r)) as Hm
        by (apply list_lookup_fmap_Some; by exists r).
      rewrite Hlab in Hm. apply lookup_seq in Hm as [-> _]. lia. }
    rewrite (Hl a rA HrA), (Hl b rB HrB).
    by apply (StronglySorted_lookup _ _ i j a b (Hst scores) Hij Hia Hjb
                sA sB).
Qed.

(** C7.  Whole-call failure on scorer error: when the cross-encoder raises
    on the text of any row, [rerank_results] raises; no frame is returned
    and nothing has changed, the input frame included. *)
Theorem rerank_fails_as_a_whole (w : W) q df (rows : DataFrame meta) r :
  frames w !! df = Some rows →
  r ∈ rows →
  cross_encoder q (Documents r) = None →
  rerank q df w = (inl ScoringError, w).
Proof.
  intros Hdf Hr Hnone.
  assert (mapM (scored q) rows = None) as Hsc.
  { apply mapM_None_2, Exists_exists. by exists r. }
  unfold rerank_results, cell_bind, getitem_Documents.
  unfold DataFrame in *. rewrite Hdf.
  unfold cross_encoder_predict, call. by rewrite predict_inputs, Hsc.
Qed.

(** C10.  [rerank_results] changes its input in place: after a call that
    returns, the frame passed in carries the column [Reranked_Scores] with
    the scores of the cross-encoder, its candidates being as before; the
    frame returned is another frame, made of the same rows; every other
    frame is as it was. *)
Theorem rerank_mutates_input (w : W) q df (rows : DataFrame meta) scores :
  (∀ key, nargsort key ≡ₚ seq 0 (length key)) →
  frames w !! df = Some rows →
  mapM (scored q) rows = Some scores →
  ∃ out rows' sorted w',
    rerank q df w = (inr out, w')
    ∧ out ≠ df
    ∧ frames w' !! df = Some rows'
    ∧ mapM Reranked_Scores rows' = Some scores
    ∧ map candidate rows' = map candidate rows
    ∧ frames w' !! out = Some sorted
    ∧ sorted ≡ₚ rows'
    ∧ ∀ k, k ≠ df → k ≠ out → frames w' !! k = frames w !! k.
Proof.
  intros Hp Hdf Hsc.
  destruct (rerank_returns w q df rows scores Hdf Hsc (Hp scores))
    as (sorted & Hsorted & Hr).
  pose proof (length_mapM _ _ _ Hsc) as Hlen.
  pose proof (lookup_lt_Some _ _ _ Hdf) as Hlt.
  destruct (frames_after_rerank (frames w) df
              (zip_with with_score rows scores) sorted Hlt)
    as (H1 & H2 & H3).
  eexists _, _, sorted, _. split; [exact Hr|]. simpl.
  split_and!; try done.
  - lia.
  - by apply with_score_scores.
  - by apply with_score_candidates.
  - apply take_rows_perm in Hsorted; [done|].
    by rewrite length_zip_with, Hlen, Nat.min_id.
Qed.

End Reranker.

(** ** The two sorting routines *)

Section Insertion.

Variable before : Q → Q → bool.
Variable key : list Q.
Hypothesis before_true : ∀ y x, before y x = true → (x <= y)%Q.
Hypothesis before_false : ∀ y x, before y x = false → (y <= x)%Q.

Abbreviation at_least a b := ((nth b key 0 <= nth a key 0)%Q).

Lemma insert_index_perm i l : insert_index before key i l ≡ₚ i :: l.
Proof.
  induction l as [|j l IH]; simpl; [done|].
  destruct (before _ _); [|done]. rewrite IH. apply Permutation_swap.
Qed.

Lemma foldr_insert_index_perm (l : list nat) :
  foldr (insert_index before key) [] l ≡ₚ l.
Proof.
  induction l as [|i l IH]; simpl; [done|].
  by rewrite insert_index_perm, IH.
Qed.

Lemma insert_index_sorted i l :
  StronglySorted (λ a b, at_least a b) l →
  StronglySorted (λ a b, at_least a b) (insert_index before key i l).
Proof.
  induction 1 as [|j l Hs IH Hj]; simpl.
  - repeat constructor.
  - destruct (before _ _) eqn:E.
    + apply before_true in E. constructor; [done|].
      rewrite insert_index_perm. by constructor.
    + apply before_false in E. constructor; [by constructor|].
      constructor; [done|].
      eapply Forall_impl; [exact Hj|]. intros z Hz. simpl in *.
      by eapply Qle_trans.
Qed.

Lemma argsort_with_perm : argsort_with before key ≡ₚ seq 0 (length key).
Proof. apply foldr_insert_index_perm. Qed.

Lemma argsort_with_descends :
  StronglySorted (key_ge key) (argsort_with before key).
Proof.
  assert (StronglySorted (λ a b, at_least a b) (argsort_with before key))
    as Hs.
  { unfold argsort_with. induction (seq 0 (length key)) as [|i l IH]; simpl.
    - constructor.
    - by apply insert_index_sorted. }
  induction Hs as [|a l Hs IH Ha]; constructor; [done|].
  eapply Forall_impl; [exact Ha|]. intros b Hb x y Hx Hy. simpl in Hb.
  by rewrite (nth_lookup_Some _ _ _ _ Hx), (nth_lookup_Some _ _ _ _ Hy) in Hb.
Qed.

End Insertion.

Lemma nargsort_stable_sorts : sorts_descending nargsort_stable.
Proof.
  split; intros key.
  - apply argsort_with_perm.
  - apply argsort_with_descends.
    + intros y x Hb. apply negb_true_iff, Qle_bool_false in Hb.
      by apply Qlt_le_weak.
    + intros y x Hb. apply negb_false_iff in Hb. by apply Qle_bool_iff.
Qed.

Lemma insert_index_stable key i l :
  Forall (λ z, i < z) l →
  StronglySorted (ties_in_order key) l →
  StronglySorted (ties_in_order key)
    (insert_index (λ y x, negb (Qle_bool y x)) key i l).
Proof.
  intros Hi Hs. induction Hs as [|j l Hs IH Hj]; simpl.
  - repeat constructor.
  - apply Forall_cons in Hi as [Hij Hi].
    destruct (negb _) eqn:E.
    + apply negb_true_iff, Qle_bool_false in E. constructor; [by apply IH|].
      rewrite insert_index_perm. constructor; [|done].
      intros x y Hx Hy Heq.
      rewrite <- (nth_lookup_Some _ _ 0%Q _ Hx),
        <- (nth_lookup_Some _ _ 0%Q _ Hy) in Heq.
      rewrite Heq in E. by apply Qlt_irrefl in E.
    + constructor; [by constructor|]. constructor.
      * by intros x y _ _ _.
      * eapply Forall_impl; [exact Hi|]. by intros z Hz x y _ _ _.
Qed.

Lemma nargsort_stable_is_stable : stable_sort nargsort_stable.
Proof.
  intros key. unfold nargsort_stable, argsort_with.
  generalize 0 as s. induction (length key) as [|n IH]; intros s; simpl.
  - constructor.
  - apply insert_index_stable; [|apply IH].
    apply Forall_forall. intros z Hz.
    rewrite foldr_insert_index_perm in Hz. apply elem_of_seq in Hz. lia.
Qed.

(** ** The development at work on the small environment *)

Lemma Qle_by_bool (x y : Q) : Qle_bool x y = true → (x <= y)%Q.
Proof. apply Qle_bool_iff. Qed.

Lemma Qlt_by_bool (x y : Q) : Qle_bool y x = false → (x < y)%Q.
Proof. apply Qle_bool_false. Qed.

Lemma demo_first_call :
  Demo.retrieve Demo.q_diabetes 5 0.2%Q (Demo.fresh Demo.two_pages)
  = (inr Demo.frame_diabetes, Demo.asked_diabetes).
Proof. by vm_compute. Qed.

Lemma demo_store_query :
  query Demo.embedding_function Demo.distance
    (collection (Demo.fresh Demo.two_pages)) Demo.q_diabetes 5
  = inr Demo.results_diabetes.
Proof. by vm_compute. Qed.

Lemma demo_first_call_stores :
  cache_collection Demo.asked_diabetes
  = cache_collection (Demo.fresh Demo.two_pages) ++ [Demo.entry_diabetes].
Proof. by vm_compute. Qed.

Lemma demo_round_trips results :
  query Demo.embedding_function Demo.distance
    (collection (Demo.fresh Demo.two_pages)) Demo.q_diabetes 5
  = inr results →
  payload_round_trips results.
Proof. intros [= <-]. by vm_compute. Qed.

(** C1 at work: the cache is empty, the query about diabetes is stored,
    and the query about diabetic care, within the threshold of it, gets
    its frame through the hit path. *)
Lemma cache_hit_on_nearest_stored_query_witness :
  ∃ w2,
    Demo.retrieve Demo.q_diabetic 1 0.2%Q Demo.asked_diabetes
    = (inr Demo.frame_diabetes, w2)
    ∧ hit_path Demo.q_diabetic Demo.asked_diabetes w2
    ∧ cache_collection w2 = cache_collection Demo.asked_diabetes.
Proof.
  destruct (cache_hit_on_nearest_stored_query
              Demo.vec Demo.embedding_function Demo.distance Demo.meta
              (Demo.fresh Demo.two_pages) Demo.q_diabetes 5 0.2%Q
              (inr Demo.frame_diabetes) Demo.asked_diabetes
              Demo.entry_diabetes Demo.q_diabetic 1 0.2%Q 0.25%Q
              demo_first_call demo_first_call_stores eq_refl)
    as (r1 & Hr1 & _ & _ & Hhit & _).
  - intros e He. by apply elem_of_nil in He.
  - exact demo_round_trips.
  - injection Hr1 as <-. apply Hhit. by apply Qle_by_bool.
Defined.

Lemma demo_second_call :
  Demo.retrieve Demo.q_waiting 5 0.2%Q Demo.asked_diabetes
  = (inr Demo.frame_waiting, Demo.asked_waiting).
Proof. by vm_compute. Qed.

(** C1, as stated, fails: the nearest stored query answers, whichever it
    is.  The cache holds the record of an earlier query about diabetes when
    the call for Q1 (the waiting period) stores its record.  Q2 (diabetic
    care) is within the threshold of the stored Q1 and gets the frame of
    the older record, which is nearer; and the query about diabetes, beyond
    the threshold of Q1, takes the hit path all the same. *)
Lemma nearest_record_answers_not_Q1 :
  Demo.retrieve Demo.q_waiting 5 0.2%Q Demo.asked_diabetes
  = (inr Demo.frame_waiting, Demo.asked_waiting)
  ∧ cache_collection Demo.asked_waiting
    = cache_collection Demo.asked_diabetes ++ [Demo.entry_waiting]
  ∧ Demo.embedding_function Demo.q_diabetic = Some 0.25%Q
  ∧ (Demo.distance 0.25 (embedding Demo.entry_waiting) <= 0.2)%Q
  ∧ (∃ w2, Demo.retrieve Demo.q_diabetic 5 0.2%Q Demo.asked_waiting
           = (inr Demo.frame_diabetes, w2))
  ∧ Demo.frame_diabetes ≠ Demo.frame_waiting
  ∧ Demo.embedding_function Demo.q_diabetes = Some 0%Q
  ∧ (0.2 < Demo.distance 0 (embedding Demo.entry_waiting))%Q
  ∧ (∃ out w3,
       Demo.retrieve Demo.q_diabetes 5 0.2%Q Demo.asked_waiting = (out, w3)
       ∧ hit_path Demo.q_diabetes Demo.asked_waiting w3
       ∧ ¬ miss_path Demo.asked_waiting w3).
Proof.
  split_and!.
  - exact demo_second_call.
  - by vm_compute.
  - by vm_compute.
  - by apply Qle_by_bool.
  - eexists. by vm_compute.
  - discriminate.
  - by vm_compute.
  - by apply Qlt_by_bool.
  - eexists _, _. split_and!.
    + by vm_compute.
    + eexists. by vm_compute.
    + intros [rest Hrest]. vm_compute in Hrest. discriminate.
Qed.



(** C6 at work: a text the embedding model raises on, and a query that
    misses and asks the store for no result at all. *)
Lemma no_cache_write_on_failure_witness :
  Demo.retrieve "no such text" 5 0.2%Q Demo.asked_diabetes
  = (inl EmbeddingError, Demo.asked_diabetes)
  ∧ ∃ w',
      Demo.retrieve Demo.q_premium 0 0.2%Q Demo.asked_diabetes
      = (inl NResultsError, w')
      ∧ cache_collection w' = cache_collection Demo.asked_diabetes.
Proof.
  split.
  - by apply (proj1 (no_cache_write_on_failure
                       Demo.vec Demo.embedding_function Demo.distance
                       Demo.meta Demo.asked_diabetes "no such text" 5
                       0.2%Q)).
  - by eapply (proj1 (proj2 (no_cache_write_on_failure
                               Demo.vec Demo.embedding_function
                               Demo.distance Demo.meta Demo.asked_diabetes
                               Demo.q_premium 0 0.2%Q))).
Defined.

(** C8 at work: the first query of a fresh cache, with a threshold below
    every distance. *)
Lemma empty_cache_misses_witness :
  ∃ out w',
    Demo.retrieve Demo.q_diabetes 5 (-1)%Q (Demo.fresh Demo.two_pages)
    = (out, w')
    ∧ miss_path (Demo.fresh Demo.two_pages) w'
    ∧ out = inr Demo.frame_diabetes
    ∧ cache_collection w' = [Demo.entry_diabetes].
Proof.
  destruct (empty_cache_misses
              Demo.vec Demo.embedding_function Demo.distance Demo.meta
              (Demo.fresh Demo.two_pages) Demo.q_diabetes 5 (-1)%Q 0%Q
              eq_refl eq_refl)
    as (_ & out & w' & Hr & Hmiss & Hout).
  rewrite demo_store_query in Hout.
  destruct Hout as [(df & -> & Hdf) Hc].
  exists (inr df), w'. split_and!; [done|done| |done].
  vm_compute in Hdf. by injection Hdf as <-.
Defined.

(** C8, as stated, fails on a query that the embedding model raises on:
    the lookup embeds the query text before it looks at the cache, so on
    the empty cache the lookup itself raises, and the call raises with it
    and never gets to the store. *)
Lemma empty_cache_lookup_raises :
  cache_collection (Demo.fresh Demo.two_pages) = []
  ∧ Demo.embedding_function "no such text" = None
  ∧ query Demo.embedding_function Demo.distance
      (cache_collection (Demo.fresh Demo.two_pages)) "no such text" 1
    = inl EmbeddingError
  ∧ Demo.retrieve "no such text" 5 0.2%Q (Demo.fresh Demo.two_pages)
    = (inl EmbeddingError, Demo.fresh Demo.two_pages)
  ∧ stdout (Demo.fresh Demo.two_pages) = [].
Proof. by split_and!. Qed.



(** C3, as stated, fails: the cache holds the record made for the query
    when the store had one page; storing the results of the two-page store
    under the same query text leaves that record, and the lookup returns
    the old payload, not the one stored last. *)
Lemma store_does_not_overwrite :
  add Demo.embedding_function
    (cache_collection Demo.asked_one_page) Demo.q_diabetes Demo.q_diabetes
    (metadata Demo.entry_diabetes)
  = inr (cache_collection Demo.asked_one_page)
  ∧ ∃ res old,
      query Demo.embedding_function Demo.distance
        (cache_collection Demo.asked_one_page) Demo.q_diabetes 1
      = inr res
      ∧ metadatas res = [old]
      ∧ old ≠ metadata Demo.entry_diabetes.
Proof.
  split; [by vm_compute|]. eexists _, _. split_and!.
  - by vm_compute.
  - done.
  - discriminate.
Qed.

(** C3 at work: the query about diabetes is in the cache already. *)
Lemma store_keeps_first_entry_witness :
  add Demo.embedding_function
    (cache_collection Demo.asked_one_page) Demo.q_diabetes Demo.q_diabetes
    (metadata Demo.entry_diabetes)
  = inr (cache_collection Demo.asked_one_page).
Proof.
  destruct (store_keeps_first_entry
              Demo.vec Demo.embedding_function
              (cache_collection Demo.asked_one_page) Demo.q_diabetes
              Demo.q_diabetes 0%Q (metadata Demo.entry_diabetes) eq_refl)
    as (c' & -> & Hsame & _).
  f_equal. apply Hsame. vm_compute. by left.
Defined.

Lemma demo_scores :
  mapM (λ r : Row Demo.meta,
          Demo.cross_encoder Demo.q_premium (Documents r)) Demo.three_rows
  = Some [0.3%Q; 0.3%Q; 0.9%Q].
Proof. by vm_compute. Qed.

(** C4 at work on the frame of three pages. *)
Lemma rerank_is_permutation_witness :
  ∃ out sorted w',
    Demo.rerank nargsort_stable Demo.q_premium 0
      (Demo.holding Demo.three_rows) = (inr out, w')
    ∧ frames w' !! out = Some sorted
    ∧ map candidate sorted ≡ₚ map candidate Demo.three_rows.
Proof.
  apply (rerank_is_permutation Demo.vec Demo.meta Demo.cross_encoder
           nargsort_stable (Demo.holding Demo.three_rows) Demo.q_premium 0
           Demo.three_rows [0.3%Q; 0.3%Q; 0.9%Q]).
  - exact (indexer_permutes _ nargsort_stable_sorts).
  - reflexivity.
  - exact demo_scores.
Defined.

(** On a short column the default routine is an insertion sort of the
    reversed column: the two pages of equal score keep their order. *)
Lemma quicksort_on_three_rows :
  nargsort_quicksort [0.3%Q; 0.3%Q; 0.9%Q] = [2; 0; 1].
Proof. by vm_compute. Qed.

Lemma demo_clause_scores :
  mapM (λ r : Row Demo.meta,
          Demo.clause_encoder Demo.q_premium (Documents r))
       Demo.twenty_rows
  = Some (map Demo.clause_score (seq 0 20)).
Proof. by vm_compute. Qed.

(** C2, as stated, fails on the ties with the routine that the call runs,
    pandas' default.  The frame has twenty rows, already in descending
    order of their scores, clauses 9 and 10 scoring alike.  The reversed
    column has more than 17 entries, so [aquicksort] partitions it: the
    median of three is the entry in the middle, which is clause 10; it is
    swapped to the last place but one, and the scans, which stop at an
    entry equal to the pivot, swap clause 9 to the place before the one
    where the pivot then lands.  Both halves are in order already; clause
    9 now precedes clause 10 in the sorted reversed column, where clause
    10 preceded it, and the indexer reversed puts clause 10 ahead of
    clause 9. *)
Lemma quicksort_swaps_equal_scores :
  map Documents Demo.twenty_rows = map Demo.clause (seq 0 20)
  ∧ Demo.clause_encoder Demo.q_premium (Demo.clause 9) = Some 11%Q
  ∧ Demo.clause_encoder Demo.q_premium (Demo.clause 10) = Some 11%Q
  ∧ ∃ sorted w',
      rerank_results Demo.vec Demo.meta Demo.clause_encoder
        nargsort_quicksort Demo.q_premium 0
        (Demo.holding Demo.twenty_rows) = (inr 1, w')
      ∧ frames w' !! 1 = Some sorted
      ∧ map Reranked_Scores sorted
        = map Some [20; 19; 18; 17; 16; 15; 14; 13; 12; 11; 11; 9; 8; 7; 6;
                    5; 4; 3; 2; 1]%Q
      ∧ map Documents sorted
        = map Demo.clause [0; 1; 2; 3; 4; 5; 6; 7; 8; 10; 9; 11; 12; 13;
                           14; 15; 16; 17; 18; 19].
Proof.
  split_and!; [done|done|done|].
  eexists _, _. split_and!; by vm_compute.
Qed.

(** C2 at work with the stable routine: descending scores, and the two
    pages of equal score in the order of the input frame. *)
Lemma rerank_descending_scores_witness :
  ∃ out sorted w',
    Demo.rerank nargsort_stable Demo.q_premium 0
      (Demo.holding Demo.three_rows) = (inr out, w')
    ∧ frames w' !! out = Some sorted
    ∧ ∀ i j A B, i < j → sorted !! i = Some A → sorted !! j = Some B →
        ∃ sA sB,
          Reranked_Scores A = Some sA ∧ Reranked_Scores B = Some sB
          ∧ (sB <= sA)%Q
          ∧ ((sA == sB)%Q → label A < label B).
Proof.
  destruct (rerank_descending_scores Demo.vec Demo.meta Demo.cross_encoder
              nargsort_stable (Demo.holding Demo.three_rows) Demo.q_premium
              0 Demo.three_rows [0.3%Q; 0.3%Q; 0.9%Q]
              nargsort_stable_sorts eq_refl demo_scores)
    as (out & sorted & w' & Hr & Hout & Hord).
  exists out, sorted, w'. split_and!; [done|done|].
  intros i j A B Hij HA HB.
  destruct (Hord i j A B Hij HA HB)
    as (sA & sB & HsA & HsB & _ & _ & Hle & Hst).
  exists sA, sB. split_and!; [done|done|done|].
  apply Hst; [exact nargsort_stable_is_stable|reflexivity].
Defined.

(** C7 at work: the cross-encoder raises on the premium page. *)
Lemma rerank_fails_as_a_whole_witness :
  Demo.rerank nargsort_stable Demo.q_waiting 0
    (Demo.holding Demo.three_rows)
  = (inl ScoringError, Demo.holding Demo.three_rows).
Proof.
  apply (rerank_fails_as_a_whole Demo.vec Demo.meta Demo.cross_encoder
           nargsort_stable (Demo.holding Demo.three_rows) Demo.q_waiting 0
           Demo.three_rows
           (mkRow 0 Demo.c_premium ("Policy_A.pdf", "Page 9") 0.5%Q None)).
  - reflexivity.
  - by left.
  - reflexivity.
Defined.

(** C10 at work: frame 0 is the input, frame 1 the one returned. *)
Lemma rerank_mutates_input_witness :
  ∃ out rows' sorted w',
    Demo.rerank nargsort_stable Demo.q_premium 0
      (Demo.holding Demo.three_rows) = (inr out, w')
    ∧ out ≠ 0
    ∧ frames w' !! 0 = Some rows'
    ∧ mapM Reranked_Scores rows' = Some [0.3%Q; 0.3%Q; 0.9%Q]
    ∧ map candidate rows' = map candidate Demo.three_rows
    ∧ frames w' !! out = Some sorted
    ∧ sorted ≡ₚ rows'
    ∧ ∀ k, k ≠ 0 → k ≠ out →
           frames w' !! k = frames (Demo.holding Demo.three_rows) !! k.
Proof.
  apply (rerank_mutates_input Demo.vec Demo.meta Demo.cross_encoder
           nargsort_stable (Demo.holding Demo.three_rows) Demo.q_premium 0
           Demo.three_rows [0.3%Q; 0.3%Q; 0.9%Q]).
  - exact (indexer_permutes _ nargsort_stable_sorts).
  - reflexivity.
  - exact demo_scores.
Defined.
